(** * Verification of the watchtower (Summoner) core: the stream-json
    decoder of [src/src/cli.rs], the CLI worker loop, the MCP
    command/response bridge of [src/src/mcp_server.rs] and the operation
    history of [src/src/history.rs]. *)

From Stdlib Require Import String List ZArith NArith Lia Floats.
Import ListNotations.
Open Scope string_scope.
Set Warnings "-register-all,-inexact-float".

(* ================================================================= *)
(** ** JSON values as seen through [serde_json::Value] *)

Module Json.

(** [serde_json::Number] (without arbitrary precision): a non-negative
    integer, a negative integer, or a finite f64. *)
Inductive number :=
| PosInt (n : N)
| NegInt (z : Z)
| Float (f : float).

Inductive value :=
| Null
| Bool (b : bool)
| Number (n : number)
| Str (s : string)
| Array (xs : list value)
| Object (fields : list (string * value)).

(** u64/i64 to f64 with round-to-nearest-even, as Rust's [as f64]. *)
Definition Z_as_f64 (z : Z) : float :=
  SF2Prim (SpecFloat.binary_normalize FloatOps.prec FloatOps.emax z 0 false).

(** [Value::get(&str)]: a field lookup on objects, [None] otherwise. *)
Definition get (k : string) (v : value) : option value :=
  match v with
  | Object fs =>
      match find (fun kv => String.eqb (fst kv) k) fs with
      | Some (_, x) => Some x
      | None => None
      end
  | _ => None
  end.

(** [Value::as_str] *)
Definition as_str (v : value) : option string :=
  match v with Str s => Some s | _ => None end.

(** [Value::as_f64] *)
Definition as_f64 (v : value) : option float :=
  match v with
  | Number (PosInt n) => Some (Z_as_f64 (Z.of_N n))
  | Number (NegInt z) => Some (Z_as_f64 z)
  | Number (Float f) => Some f
  | _ => None
  end.

(** [Value::as_u64] *)
Definition as_u64 (v : value) : option N :=
  match v with Number (PosInt n) => Some n | _ => None end.

(** [opt.and_then(f)] *)
Definition and_then {A B} (o : option A) (f : A -> option B) : option B :=
  match o with Some a => f a | None => None end.

Definition unwrap_or {A} (o : option A) (d : A) : A :=
  match o with Some a => a | None => d end.

End Json.

Import Json.

(* ================================================================= *)
(** ** The stream decoder, [parse_stream_json_line] (src/src/cli.rs) *)

Module Cli.

(** [CliEvent]; [num_turns] is a [u32], kept as an [N] below [2^32]. *)
Inductive CliEvent :=
| SessionStarted (session_id : string)
| TextDelta (text : string)
| ThinkingDelta (text : string)
| ToolUseStarted (tool_name : string) (tool_id : string)
| ToolUseInputDelta (tool_id : string) (partial_json : string)
| ToolUseFinished (tool_id : string)
| TurnComplete (session_id : string)
| Complete (session_id : string) (total_cost_usd : option float) (num_turns : N)
| Error (message : string).

(** The two [&mut String] carried by the stdout reader thread. *)
Record decoder := mk_decoder {
  session_id : string;
  current_tool_id : string;
}.

Definition empty_decoder : decoder := mk_decoder "" "".

(** [x.get(k).and_then(|v| v.as_str())] *)
Definition get_str (k : string) (v : value) : option string :=
  and_then (get k v) as_str.

(** [n as u32] for a [u64]: truncation modulo [2^32]. *)
Definition u64_as_u32 (n : N) : N := N.modulo n (2 ^ 32).

Definition parse_stream_json_line (v : value) (st : decoder)
  : list CliEvent * decoder :=
  let message_type := unwrap_or (get_str "type" v) "" in
  if String.eqb message_type "system" then
    match get_str "session_id" v with
    | Some sid => ([SessionStarted sid], mk_decoder sid st.(current_tool_id))
    | None => ([], st)
    end
  else if String.eqb message_type "stream_event" then
    match get "event" v with
    | None => ([], st)
    | Some event =>
      let event_type := unwrap_or (get_str "type" event) "" in
      if String.eqb event_type "content_block_start" then
        match get "content_block" event with
        | None => ([], st)
        | Some content_block =>
          let block_type := unwrap_or (get_str "type" content_block) "" in
          if String.eqb block_type "tool_use" then
            let tool_name := unwrap_or (get_str "name" content_block) "unknown" in
            let tool_id := unwrap_or (get_str "id" content_block) "" in
            ([ToolUseStarted tool_name tool_id], mk_decoder st.(session_id) tool_id)
          else ([], st)
        end
      else if String.eqb event_type "content_block_delta" then
        match get "delta" event with
        | None => ([], st)
        | Some delta =>
          let delta_type := unwrap_or (get_str "type" delta) "" in
          if String.eqb delta_type "text_delta" then
            match get_str "text" delta with
            | Some text => ([TextDelta text], st)
            | None => ([], st)
            end
          else if String.eqb delta_type "input_json_delta" then
            match get_str "partial_json" delta with
            | Some partial => ([ToolUseInputDelta st.(current_tool_id) partial], st)
            | None => ([], st)
            end
          else if String.eqb delta_type "thinking_delta" then
            match get_str "thinking" delta with
            | Some text => ([ThinkingDelta text], st)
            | None => ([], st)
            end
          else ([], st)
        end
      else if String.eqb event_type "content_block_stop" then
        ([ToolUseFinished st.(current_tool_id)], mk_decoder st.(session_id) "")
      else if String.eqb event_type "message_stop" then
        ([TurnComplete st.(session_id)], st)
      else ([], st)
    end
  else if String.eqb message_type "result" then
    let total_cost := and_then (get "total_cost_usd" v) as_f64 in
    let num_turns := u64_as_u32 (unwrap_or (and_then (get "num_turns" v) as_u64) 0%N) in
    ([Complete st.(session_id) total_cost num_turns], st)
  else ([], st).

(** Feeding a sequence of parsed values to the decoder, collecting the
    events in order (the body of the stdout reader loop). *)
Fixpoint decode_values (vs : list value) (st : decoder) : list CliEvent * decoder :=
  match vs with
  | [] => ([], st)
  | v :: rest =>
      let (evs, st1) := parse_stream_json_line v st in
      let (evs', st2) := decode_values rest st1 in
      ((evs ++ evs')%list, st2)
  end.

(** [char::is_whitespace] on the ASCII range: tab, line feed, vertical
    tab, form feed, carriage return and space. *)
Definition is_whitespace (c : Ascii.ascii) : bool :=
  let n := Ascii.nat_of_ascii c in
  orb (andb (Nat.leb 9 n) (Nat.leb n 13)) (Nat.eqb n 32).

(** [line.trim().is_empty()] *)
Fixpoint trim_is_empty (line : string) : bool :=
  match line with
  | EmptyString => true
  | String c rest => andb (is_whitespace c) (trim_is_empty rest)
  end.

(** One iteration of the stdout reader loop on a line that was read.
    [from_str] is [serde_json::from_str], [None] when the line is not JSON. *)
Definition reader_step (from_str : string -> option value) (line : string) (st : decoder)
  : list CliEvent * decoder :=
  if trim_is_empty line then ([], st)
  else match from_str line with
       | None => ([], st)
       | Some v => parse_stream_json_line v st
       end.

End Cli.

Import Cli.

(* ================================================================= *)
(** ** The CLI worker thread of [spawn_cli_worker] (src/src/cli.rs) *)

Module Worker.

(** A spawned [claude] process, identified by its pid. *)
Record Child := mk_child { pid : nat }.

Inductive CliCommand :=
| StartQuery (prompt : string) (session_id : option string) (model : option string)
| Cancel.

(** What one iteration of the worker loop does to the outside world, in
    order.  [Spawn] stands for [Command::new("claude")] with the argument
    vector built from the prompt, the optional [--resume] session and the
    optional [--model]; [StartReader c] starts the stdout reader thread of
    [c] with an empty [session_id] and [current_tool_id]. *)
Inductive action :=
| Kill (c : Child)
| Wait (c : Child)
| Spawn (prompt : string) (resume : option string) (model : option string)
| StartReader (c : Child)
| Emit (e : CliEvent).

(** The two locals of the worker thread. *)
Record worker := mk_worker {
  current_child : option Child;
  current_session_id : string;
}.

Definition initial_worker : worker := mk_worker None "".

(** [if let Some(mut child) = current_child.take() { kill; wait }] *)
Definition take_and_kill (w : worker) : list action :=
  match w.(current_child) with
  | Some c => [Kill c; Wait c]
  | None => []
  end.

(** One received command.  [spawned] is the outcome of [cmd.spawn()]:
    the child, or the displayed error. *)
Definition worker_step (spawned : Child + string) (cmd : CliCommand) (w : worker)
  : worker * list action :=
  match cmd with
  | StartQuery prompt sid model =>
      let killed := take_and_kill w in
      match spawned with
      | inl c =>
          (mk_worker (Some c) "",
           (killed ++ [Spawn prompt sid model; StartReader c])%list)
      | inr err =>
          (mk_worker None w.(current_session_id),
           (killed ++ [Spawn prompt sid model;
                       Emit (Error ("Failed to spawn claude CLI: " ++ err))])%list)
      end
  | Cancel =>
      (mk_worker None w.(current_session_id),
       (take_and_kill w ++ [Emit (TurnComplete w.(current_session_id))])%list)
  end.

(** The events sent on [event_sender] by a list of actions. *)
Fixpoint emitted (acts : list action) : list CliEvent :=
  match acts with
  | [] => []
  | Emit e :: rest => e :: emitted rest
  | _ :: rest => emitted rest
  end.

(** The whole CLI side: the worker, one stdout reader per spawned child
    with its carried decoder state, and the events sent to the UI. *)
Record system := mk_system {
  sys_worker : worker;
  sys_readers : list (Child * decoder);
  sys_events : list CliEvent;
}.

Definition initial_system : system := mk_system initial_worker [] [].

(** [spawned] is the outcome [cmd.spawn()] would have; a [Cancel] ignores it. *)
Inductive input :=
| InCommand (spawned : Child + string) (cmd : CliCommand)
| InLine (c : Child) (v : value).

Fixpoint reader_of (c : Child) (rs : list (Child * decoder)) : option decoder :=
  match rs with
  | [] => None
  | (c', d) :: rest => if Nat.eqb c.(pid) c'.(pid) then Some d else reader_of c rest
  end.

Fixpoint set_reader (c : Child) (d : decoder) (rs : list (Child * decoder))
  : list (Child * decoder) :=
  match rs with
  | [] => []
  | (c', d') :: rest =>
      if Nat.eqb c.(pid) c'.(pid) then (c', d) :: rest else (c', d') :: set_reader c d rest
  end.

Fixpoint apply_actions (acts : list action) (s : system) : system :=
  match acts with
  | [] => s
  | StartReader c :: rest =>
      apply_actions rest (mk_system s.(sys_worker) ((c, empty_decoder) :: s.(sys_readers))
                                    s.(sys_events))
  | Emit e :: rest =>
      apply_actions rest (mk_system s.(sys_worker) s.(sys_readers) (s.(sys_events) ++ [e])%list)
  | _ :: rest => apply_actions rest s
  end.

(** A command is handled by the worker; a parsed stdout line of child [c]
    is handled by [c]'s reader thread, which keeps its own decoder. *)
Definition sys_step (i : input) (s : system) : system :=
  match i with
  | InCommand spawned cmd =>
      let (w', acts) := worker_step spawned cmd s.(sys_worker) in
      apply_actions acts (mk_system w' s.(sys_readers) s.(sys_events))
  | InLine c v =>
      match reader_of c s.(sys_readers) with
      | None => s
      | Some d =>
          let (evs, d') := parse_stream_json_line v d in
          mk_system s.(sys_worker) (set_reader c d' s.(sys_readers))
                    (s.(sys_events) ++ evs)%list
      end
  end.

Fixpoint run (is : list input) (s : system) : system :=
  match is with
  | [] => s
  | i :: rest => run rest (sys_step i s)
  end.

(** The worker loop over a sequence of received commands, each with
    the outcome its spawn would have; the actions in order. *)
Fixpoint worker_run (cmds : list ((Child + string) * CliCommand)) (w : worker)
  : worker * list action :=
  match cmds with
  | [] => (w, [])
  | (spawned, cmd) :: rest =>
      let (w1, acts1) := worker_step spawned cmd w in
      let (w2, acts2) := worker_run rest w1 in
      (w2, (acts1 ++ acts2)%list)
  end.

(** The [claude] processes alive after a sequence of actions: a spawned
    child is alive once its reader starts and dead once waited for. *)
Fixpoint live (acts : list action) (alive : list Child) : list Child :=
  match acts with
  | [] => alive
  | StartReader c :: rest => live rest (c :: alive)
  | Wait c :: rest =>
      live rest (filter (fun c' => negb (Nat.eqb c'.(pid) c.(pid))) alive)
  | _ :: rest => live rest alive
  end.

Definition opt_to_list {A} (o : option A) : list A :=
  match o with Some a => [a] | None => [] end.

(** The last session id decoded from the stream of the running process. *)
Definition stream_session_id (s : system) : option string :=
  match s.(sys_worker).(current_child) with
  | Some c => option_map session_id (reader_of c s.(sys_readers))
  | None => None
  end.

End Worker.

(* ================================================================= *)
(** ** The command/response bridge, [send_command_and_wait]
       (src/src/mcp_server.rs) *)

Module Bridge.

Inductive McpResponse :=
| Success (message : string)
| UserInput (input : string).

Definition response_text (r : McpResponse) : string :=
  match r with
  | Success message => message
  | UserInput input => input
  end.

Definition TIMEOUT_MESSAGE : string := "Timeout waiting for response".

(** The loop bound [for _ in 0..200]. *)
Definition max_attempts : nat := 200.

Section Bridge.

(** The tool commands are only queued and never inspected here. *)
Context {McpCommand : Type}.

(** [SummonerCommandQueue] and [SummonerResponseQueue]. *)
Record bridge := mk_bridge {
  command_queue : list McpCommand;
  response_slot : option McpResponse;
}.

(** The UI thread's writers, [respond_success] and the user-input answer
    in [main.rs], both overwrite the slot with [Some _]. *)
Definition respond_success (message : string) (b : bridge) : bridge :=
  mk_bridge b.(command_queue) (Some (Success message)).

(** The slot seen by a poll: [w] is the last value the UI thread stored
    during the preceding sleep, if it stored any. *)
Definition observe (w : option McpResponse) (slot : option McpResponse)
  : option McpResponse :=
  match w with
  | Some r => Some r
  | None => slot
  end.

(** The slot value seen by poll [i] of a call that found [slot0] in
    the slot: each poll takes the slot, so later polls only see what the
    UI stored in between. *)
Definition observed (writes : nat -> option McpResponse) (slot0 : option McpResponse)
  (i : nat) : option McpResponse :=
  observe (writes i) (match i with O => slot0 | S _ => None end).

(** The polling loop: [writes i] is what the UI thread stored while the
    handler slept before its poll number [i].  Each poll takes the slot.
    The result is the returned string, the slot afterwards and the number
    of polls made. *)
Fixpoint poll_loop (fuel : nat) (i : nat) (writes : nat -> option McpResponse)
  (slot : option McpResponse) : string * option McpResponse * nat :=
  match fuel with
  | O => (TIMEOUT_MESSAGE, slot, i)
  | S k =>
      match observe (writes i) slot with
      | Some r => (response_text r, None, S i)
      | None => poll_loop k (S i) writes None
      end
  end.

(** [send_command_and_wait]: enqueue, then poll at most [max_attempts]
    times.  Returns the string, the bridge afterwards and the polls made. *)
Definition send_command_and_wait (writes : nat -> option McpResponse)
  (cmd : McpCommand) (b : bridge) : string * bridge * nat :=
  let queue := (b.(command_queue) ++ [cmd])%list in
  match poll_loop max_attempts 0 writes b.(response_slot) with
  | (result, slot, polls) => (result, mk_bridge queue slot, polls)
  end.

End Bridge.

Arguments bridge : clear implicits.

End Bridge.

(* ================================================================= *)
(** ** The operation history (src/src/history.rs) *)

Module History.

Inductive Operation :=
| CreateGame (definition : string)
| AddEntity (name : string) (entity_json : string)
| RemoveEntity (name : string) (entity_json : string)
| UpdateScript (entity_name : string) (old_script : option string) (new_script : string)
| SetGameState (key : string) (old_value : option float) (new_value : float)
| ResetGame.

(** [HistoryNode]; its [timestamp] is only read by [to_json] and is left
    out. *)
Record HistoryNode := mk_node {
  operation : Operation;
  parent : option nat;
  children : list nat;
}.

Record OperationHistory := mk_history {
  nodes : list HistoryNode;
  current : option nat;
  redo_stack : list nat;
}.

(** [OperationHistory::default()] *)
Definition empty_history : OperationHistory := mk_history [] None [].

(** [v[i] = f(v[i])]: [None] is the out-of-bounds panic. *)
Fixpoint update_nth {A} (i : nat) (f : A -> A) (l : list A) : option (list A) :=
  match l, i with
  | [], _ => None
  | x :: rest, O => Some (f x :: rest)
  | x :: rest, S j => option_map (cons x) (update_nth j f rest)
  end.

(** [Vec::pop] *)
Definition vec_pop (l : list nat) : option (list nat * nat) :=
  match rev l with
  | [] => None
  | x :: r => Some (rev r, x)
  end.

Definition add_child (index : nat) (n : HistoryNode) : HistoryNode :=
  mk_node n.(operation) n.(parent) (n.(children) ++ [index]).

(** [push]; [None] is a panic of [self.nodes[parent_index]]. *)
Definition push (h : OperationHistory) (op : Operation) : option OperationHistory :=
  let parent := h.(current) in
  let index := length h.(nodes) in
  let nodes1 := (h.(nodes) ++ [mk_node op parent []])%list in
  match parent with
  | Some parent_index =>
      match update_nth parent_index (add_child index) nodes1 with
      | Some nodes2 => Some (mk_history nodes2 (Some index) [])
      | None => None
      end
  | None => Some (mk_history nodes1 (Some index) [])
  end.

(** [undo]: the outer [None] is a panic, the inner option is the returned
    [Option<&Operation>]. *)
Definition undo (h : OperationHistory) : option (OperationHistory * option Operation) :=
  match h.(current) with
  | None => Some (h, None)
  | Some cur =>
      match nth_error h.(nodes) cur with
      | None => None
      | Some n =>
          Some (mk_history h.(nodes) n.(parent) (h.(redo_stack) ++ [cur])%list,
                Some n.(operation))
      end
  end.

(** [redo] *)
Definition redo (h : OperationHistory) : option (OperationHistory * option Operation) :=
  match vec_pop h.(redo_stack) with
  | None => Some (h, None)
  | Some (rest, redo_index) =>
      match nth_error h.(nodes) redo_index with
      | None => None
      | Some n => Some (mk_history h.(nodes) (Some redo_index) rest, Some n.(operation))
      end
  end.

(** [clear] *)
Definition clear (h : OperationHistory) : OperationHistory := mk_history [] None [].

(** Indices stored in the history point into [nodes]: the cursor, the
    redo stack and every parent link.  [push], [undo], [redo] and [clear]
    keep this, so every history the program builds satisfies it. *)
Definition in_bounds (h : OperationHistory) (i : nat) : bool :=
  Nat.ltb i (length h.(nodes)).

Definition opt_in_bounds (h : OperationHistory) (o : option nat) : bool :=
  match o with
  | Some i => in_bounds h i
  | None => true
  end.

Definition well_formed (h : OperationHistory) : bool :=
  opt_in_bounds h h.(current)
  && forallb (in_bounds h) h.(redo_stack)
  && forallb (fun n => opt_in_bounds h n.(parent)) h.(nodes).

(** The histories the program can build, from [Default]. *)
Inductive reachable : OperationHistory -> Prop :=
| reach_empty : reachable empty_history
| reach_push h op h' : reachable h -> push h op = Some h' -> reachable h'
| reach_undo h h' o : reachable h -> undo h = Some (h', o) -> reachable h'
| reach_redo h h' o : reachable h -> redo h = Some (h', o) -> reachable h'
| reach_clear h : reachable h -> reachable (clear h).

(** The head of [Summoner::handle_undo] (src/src/main.rs): the string
    reported when there is nothing to undo, or the operation the caller
    goes on to reverse in the scene. *)
Definition handle_undo (h : OperationHistory)
  : option (OperationHistory * (string + Operation)) :=
  match undo h with
  | None => None
  | Some (h', None) => Some (h', inl "Nothing to undo")
  | Some (h', Some op) => Some (h', inr op)
  end.

(** A sequence of pushes, in order. *)
Fixpoint push_all (ops : list Operation) (h : OperationHistory) : option OperationHistory :=
  match ops with
  | [] => Some h
  | op :: rest =>
      match push h op with
      | Some h' => push_all rest h'
      | None => None
      end
  end.

(** [n] successive undos, discarding what they return. *)
Fixpoint undo_n (n : nat) (h : OperationHistory) : option OperationHistory :=
  match n with
  | O => Some h
  | S k =>
      match undo h with
      | Some (h', _) => undo_n k h'
      | None => None
      end
  end.

(** The head of [Summoner::handle_redo] (src/src/main.rs). *)
Definition handle_redo (h : OperationHistory)
  : option (OperationHistory * (string + Operation)) :=
  match redo h with
  | None => None
  | Some (h', None) => Some (h', inl "Nothing to redo")
  | Some (h', Some op) => Some (h', inr op)
  end.

(** The node list forms a tree stored in creation order: every parent
    link points to an earlier node that lists the child, and every listed
    child is a later node whose parent link points back. *)
Definition tree_ok (ns : list HistoryNode) : Prop :=
  (forall j m p, nth_error ns j = Some m -> m.(parent) = Some p ->
     p < j /\ exists n, nth_error ns p = Some n /\ In j n.(children))
  /\ (forall i n j, nth_error ns i = Some n -> In j n.(children) ->
     i < j /\ exists m, nth_error ns j = Some m /\ m.(parent) = Some i).

(** [n] successive undos (resp. redos), with the operations they return. *)
Fixpoint undos (n : nat) (h : OperationHistory)
  : option (OperationHistory * list (option Operation)) :=
  match n with
  | O => Some (h, [])
  | S k =>
      match undo h with
      | Some (h1, o) =>
          match undos k h1 with
          | Some (h2, os) => Some (h2, o :: os)
          | None => None
          end
      | None => None
      end
  end.

Fixpoint redos (n : nat) (h : OperationHistory)
  : option (OperationHistory * list (option Operation)) :=
  match n with
  | O => Some (h, [])
  | S k =>
      match redo h with
      | Some (h1, o) =>
          match redos k h1 with
          | Some (h2, os) => Some (h2, o :: os)
          | None => None
          end
      | None => None
      end
  end.

End History.

(* ================================================================= *)
(** ** Forwarding to the web UI: the [CliEvent] loop of [Summoner::ui]
       (src/src/main.rs), the protocol (src/protocol/src/lib.rs) and
       [handle_backend_event] (src/site/src/lib.rs, src/site/src/state.rs) *)

Module Protocol.

Inductive AgentStatus :=
| Idle
| Thinking
| Streaming
| UsingTool (tool_name : string).

Inductive ContentFormat := Markdown | Code | Text.

Inductive PlayState := Stopped | Playing | Paused.

Inductive BackendEvent :=
| Connected
| StreamingStarted (session_id : string)
| TextDelta (text : string)
| ThinkingDelta (text : string)
| ToolUseStarted (tool_name : string) (tool_id : string)
| ToolUseInputDelta (tool_id : string) (partial_json : string)
| ToolUseFinished (tool_id : string)
| TurnComplete (session_id : string)
| RequestComplete (session_id : string) (total_cost_usd : option float) (num_turns : N)
| Error (message : string)
| StatusUpdate (status : AgentStatus)
| Notification (title : string) (body : string)
| ContentDisplay (content : string) (format : ContentFormat)
| UserInputRequest (request_id : string) (prompt : string) (options : list string)
| TestResult (test_name : string) (success : bool) (message : string) (duration_ms : N)
| GameStateChanged (has_game : bool) (play_state : PlayState) (editor_window_open : bool).

(** [Display] of an unsigned integer: its decimal digits. *)
Fixpoint uint_to_string (d : Decimal.uint) : string :=
  match d with
  | Decimal.Nil => ""
  | Decimal.D0 r => "0" ++ uint_to_string r
  | Decimal.D1 r => "1" ++ uint_to_string r
  | Decimal.D2 r => "2" ++ uint_to_string r
  | Decimal.D3 r => "3" ++ uint_to_string r
  | Decimal.D4 r => "4" ++ uint_to_string r
  | Decimal.D5 r => "5" ++ uint_to_string r
  | Decimal.D6 r => "6" ++ uint_to_string r
  | Decimal.D7 r => "7" ++ uint_to_string r
  | Decimal.D8 r => "8" ++ uint_to_string r
  | Decimal.D9 r => "9" ++ uint_to_string r
  end.

Definition display_N (n : N) : string := uint_to_string (N.to_uint n).

(** One [CliEvent] drained by [Summoner::ui]: the backend events sent,
    in order, and the new value of [cli_prompt_test_running] (the
    [swap(false)] of the [Complete] and [Error] arms). *)
Definition forward_cli_event (test_running : bool) (e : CliEvent)
  : list BackendEvent * bool :=
  match e with
  | Cli.SessionStarted sid => ([StreamingStarted sid; StatusUpdate Streaming], test_running)
  | Cli.TextDelta text => ([TextDelta text], test_running)
  | Cli.ThinkingDelta text => ([ThinkingDelta text], test_running)
  | Cli.ToolUseStarted name id =>
      ([StatusUpdate (UsingTool name); ToolUseStarted name id], test_running)
  | Cli.ToolUseInputDelta id partial => ([ToolUseInputDelta id partial], test_running)
  | Cli.ToolUseFinished id => ([ToolUseFinished id; StatusUpdate Streaming], test_running)
  | Cli.TurnComplete sid => ([TurnComplete sid], test_running)
  | Cli.Complete sid cost turns =>
      ((RequestComplete sid cost turns :: StatusUpdate Idle
        :: (if test_running
            then [TestResult "cli_prompt" true
                    ("CLI completed (" ++ display_N turns ++ " turns)") 0]
            else []))%list, false)
  | Cli.Error message =>
      ((Error message :: StatusUpdate Idle
        :: (if test_running then [TestResult "cli_prompt" false message 0] else []))%list,
       false)
  end.

Fixpoint forward_all (test_running : bool) (es : list CliEvent) : list BackendEvent * bool :=
  match es with
  | [] => ([], test_running)
  | e :: rest =>
      let (out, t1) := forward_cli_event test_running e in
      let (out', t2) := forward_all t1 rest in
      ((out ++ out')%list, t2)
  end.

(** [ToolUseBlock] *)
Record ToolUseBlock := mk_block {
  tool_name : string;
  tool_id : string;
  input_json : string;
  finished : bool;
}.

(** The streamed-reply fields of [AppState] that [handle_backend_event]
    updates from streaming events; they are written from these events
    and their own values only. *)
Record stream_view := mk_view {
  current_session_id : option string;
  streaming_text : string;
  thinking_text : string;
  active_tools : list ToolUseBlock;
}.

(** [tools.iter_mut().rev().find(p)] followed by an update of the found
    block: the last block satisfying [p] is updated, if any. *)
Fixpoint update_last (p : ToolUseBlock -> bool) (f : ToolUseBlock -> ToolUseBlock)
  (l : list ToolUseBlock) : list ToolUseBlock :=
  match l with
  | [] => []
  | x :: rest =>
      if existsb p rest then x :: update_last p f rest
      else if p x then f x :: rest else x :: rest
  end.

Definition matches_tool (id : string) (t : ToolUseBlock) : bool :=
  orb (String.eqb t.(tool_id) id) (String.eqb id "").

(** [finalize_streaming_message] on these fields: all reset. *)
Definition finalize (s : stream_view) : stream_view :=
  mk_view s.(current_session_id) "" "" [].

Definition handle_backend_event (e : BackendEvent) (s : stream_view) : stream_view :=
  match e with
  | StreamingStarted sid => mk_view (Some sid) "" "" []
  | TextDelta text => mk_view s.(current_session_id) (s.(streaming_text) ++ text)
                              s.(thinking_text) s.(active_tools)
  | ThinkingDelta text => mk_view s.(current_session_id) s.(streaming_text)
                                  (s.(thinking_text) ++ text) s.(active_tools)
  | ToolUseStarted name id =>
      mk_view s.(current_session_id) s.(streaming_text) s.(thinking_text)
              (s.(active_tools) ++ [mk_block name id "" false])%list
  | ToolUseInputDelta id partial =>
      mk_view s.(current_session_id) s.(streaming_text) s.(thinking_text)
              (update_last (matches_tool id)
                 (fun t => mk_block t.(tool_name) t.(tool_id) (t.(input_json) ++ partial)
                                    t.(finished))
                 s.(active_tools))
  | ToolUseFinished id =>
      mk_view s.(current_session_id) s.(streaming_text) s.(thinking_text)
              (update_last (matches_tool id)
                 (fun t => mk_block t.(tool_name) t.(tool_id) t.(input_json) true)
                 s.(active_tools))
  | RequestComplete _ _ _ => finalize s
  | Error _ => finalize s
  | _ => s
  end.

Definition handle_all (es : list BackendEvent) (s : stream_view) : stream_view :=
  fold_left (fun acc e => handle_backend_event e acc) es s.

End Protocol.

(* ================================================================= *)
(** * Sample stream lines *)

Import Worker Bridge History.

Definition line_system_s1 : value :=
  Object [("type", Str "system"); ("session_id", Str "s1")].

Definition line_text_hi : value :=
  Object [("type", Str "stream_event");
          ("event", Object [("type", Str "content_block_delta");
                            ("delta", Object [("type", Str "text_delta");
                                              ("text", Str "hi")])])].

Definition line_result : value :=
  Object [("type", Str "result");
          ("total_cost_usd", Number (Float 0.02%float));
          ("num_turns", Number (PosInt 1))].

Definition line_text_block_start : value :=
  Object [("type", Str "stream_event");
          ("event", Object [("type", Str "content_block_start");
                            ("content_block", Object [("type", Str "text")])])].

Definition line_block_stop : value :=
  Object [("type", Str "stream_event");
          ("event", Object [("type", Str "content_block_stop")])].

Definition tool_start_line (name id : string) : value :=
  Object [("type", Str "stream_event");
          ("event", Object [("type", Str "content_block_start");
                            ("content_block", Object [("type", Str "tool_use");
                                                      ("name", Str name);
                                                      ("id", Str id)])])].

Definition input_delta_line (partial : string) : value :=
  Object [("type", Str "stream_event");
          ("event", Object [("type", Str "content_block_delta");
                            ("delta", Object [("type", Str "input_json_delta");
                                              ("partial_json", Str partial)])])].

Definition text_delta_line (text : string) : value :=
  Object [("type", Str "stream_event");
          ("event", Object [("type", Str "content_block_delta");
                            ("delta", Object [("type", Str "text_delta");
                                              ("text", Str text)])])].

(** The session id a line announces: a [system] line with a string
    [session_id]. *)
Definition system_session (v : value) : option string :=
  if String.eqb (unwrap_or (get_str "type" v) "") "system" then get_str "session_id" v
  else None.

(** The session id announced last in a sequence of lines, [sid] if none. *)
Definition last_system_session (vs : list value) (sid : string) : string :=
  fold_left (fun acc v => unwrap_or (system_session v) acc) vs sid.

Fixpoint concat_strings (ps : list string) : string :=
  match ps with
  | [] => ""
  | p :: rest => p ++ concat_strings rest
  end.

(** A query whose stream announces session ["s1"]. *)
Definition query_then_session : list input :=
  [InCommand (inl (mk_child 1)) (StartQuery "make a game" None None);
   InLine (mk_child 1) line_system_s1].

(* ================================================================= *)
(** * The stream decoder *)

Example text_block_stop_finishes_empty_tool :
  fst (decode_values [line_text_block_start; line_block_stop] empty_decoder)
  = [ToolUseFinished ""].
Proof. vm_compute. reflexivity. Qed.

(** C2: from an empty decoder, the lines [system] (session ["s1"]), a
    [text_delta] ["hi"] and [result] (cost 0.02, one turn) decode to
    exactly [SessionStarted "s1"], [TextDelta "hi"], [Complete "s1" 0.02 1]
    in this order. *)
Theorem decode_session_text_result :
  fst (decode_values [line_system_s1; line_text_hi; line_result] empty_decoder)
  = [SessionStarted "s1"; TextDelta "hi"; Complete "s1" (Some 0.02%float) 1].
Proof. vm_compute. reflexivity. Qed.

Lemma eqb_false_of_not_in (t : string) :
  ~ In (Some t) [Some "system"; Some "stream_event"; Some "result"] ->
  String.eqb t "system" = false /\ String.eqb t "stream_event" = false
  /\ String.eqb t "result" = false.
Proof.
  intros Hn.
  repeat split; apply String.eqb_neq; intros ->; apply Hn; simpl; auto.
Qed.

(** C5: a line that does not parse as JSON, or whose top-level [type] is
    absent, not a string, or not one of [system], [stream_event] and
    [result], yields no event and leaves [session_id] and
    [current_tool_id] as they were. *)
Theorem unrecognized_line_is_ignored
  (from_str : string -> option value) (line : string) (st : decoder)
  (H : from_str line = None
       \/ exists v, from_str line = Some v
                    /\ ~ In (get_str "type" v) [Some "system"; Some "stream_event"; Some "result"]) :
  reader_step from_str line st = ([], st).
Proof.
  unfold reader_step.
  destruct (trim_is_empty line); [reflexivity |].
  destruct H as [Hnone | [v [Hv Hty]]].
  - rewrite Hnone. reflexivity.
  - rewrite Hv. unfold parse_stream_json_line.
    destruct (get_str "type" v) as [t |] eqn:Ht; simpl.
    + destruct (eqb_false_of_not_in t Hty) as [H1 [H2 H3]].
      rewrite H1, H2, H3. reflexivity.
    + reflexivity.
Qed.

Lemma unrecognized_line_is_ignored_witness :
  reader_step (fun _ => None) "not json" (mk_decoder "s1" "t1") = ([], mk_decoder "s1" "t1").
Proof. apply unrecognized_line_is_ignored. left. reflexivity. Defined.

(** C9: a [stream_event] whose [event.type] is [content_block_stop]
    always emits [ToolUseFinished] with the carried [current_tool_id],
    also the empty one when no tool block is open, and clears it. *)
Theorem content_block_stop_finishes_tool
  (v event : value) (st : decoder)
  (Htype : get_str "type" v = Some "stream_event")
  (Hevent : get "event" v = Some event)
  (Hstop : get_str "type" event = Some "content_block_stop") :
  parse_stream_json_line v st
  = ([ToolUseFinished st.(current_tool_id)], mk_decoder st.(session_id) "").
Proof.
  unfold parse_stream_json_line.
  rewrite Htype, Hevent, Hstop. reflexivity.
Qed.

Lemma content_block_stop_finishes_tool_witness :
  parse_stream_json_line line_block_stop empty_decoder
  = ([ToolUseFinished ""], mk_decoder "" "").
Proof. apply (content_block_stop_finishes_tool _ (Object [("type", Str "content_block_stop")]));
  reflexivity. Defined.

(* ================================================================= *)
(** * The CLI worker *)

(** C10: a [Cancel] sends exactly one event, a [TurnComplete], whether
    or not a child is running; only the kill and wait depend on a child. *)
Theorem cancel_always_one_turn_complete (spawned : Child + string) (w : worker) :
  snd (worker_step spawned Cancel w)
  = (take_and_kill w ++ [Emit (TurnComplete w.(current_session_id))])%list
  /\ emitted (snd (worker_step spawned Cancel w)) = [TurnComplete w.(current_session_id)]
  /\ (fst (worker_step spawned Cancel w)).(current_child) = None.
Proof.
  destruct w as [[c |] sid]; simpl; repeat split.
Qed.

Lemma worker_session_always_empty (is : list input) :
  forall s, s.(sys_worker).(current_session_id) = "" ->
  (run is s).(sys_worker).(current_session_id) = "".
Proof.
  induction is as [| i rest IH]; intros s Hs; simpl; [exact Hs |].
  apply IH.
  assert (Hact : forall acts s', (apply_actions acts s').(sys_worker) = s'.(sys_worker)).
  { induction acts as [| a acts IHa]; intros s'; simpl; [reflexivity |].
    destruct a; rewrite IHa; reflexivity. }
  destruct i as [spawned cmd | c v]; simpl.
  - destruct cmd; [destruct spawned |]; simpl; rewrite Hact; simpl; auto.
  - destruct (reader_of c (sys_readers s)); [| exact Hs].
    destruct (parse_stream_json_line v d). exact Hs.
Qed.

(** C1 (divergence): the worker's [current_session_id] is reset to the
    empty string on every spawn and never updated from the stream, so a
    [Cancel] sent after the running process announced session ["s1"]
    kills and waits for it and then reports [TurnComplete ""]; in every
    run the worker's session id stays empty. *)
Theorem cancel_reports_empty_session :
  let s := run query_then_session initial_system in
  stream_session_id s = Some "s1"
  /\ snd (worker_step (inr "") Cancel s.(sys_worker))
     = [Kill (mk_child 1); Wait (mk_child 1); Emit (TurnComplete "")]
  /\ (forall is, (run is initial_system).(sys_worker).(current_session_id) = "").
Proof.
  split; [vm_compute; reflexivity |].
  split; [vm_compute; reflexivity |].
  intros is. apply worker_session_always_empty. reflexivity.
Qed.

(* ================================================================= *)
(** * The command/response bridge *)

Lemma poll_loop_silent (writes : nat -> option McpResponse) (k : nat) :
  forall i, (forall j, i <= j < i + k -> writes j = None) ->
  poll_loop k i writes None = (TIMEOUT_MESSAGE, None, i + k).
Proof.
  induction k as [| k IH]; intros i Hw; simpl.
  - rewrite Nat.add_0_r. reflexivity.
  - rewrite (Hw i) by lia. simpl.
    rewrite IH by (intros j Hj; apply Hw; lia).
    rewrite Nat.add_succ_r. reflexivity.
Qed.

Lemma poll_loop_bounded (writes : nat -> option McpResponse) (k : nat) :
  forall i slot, snd (poll_loop k i writes slot) <= i + k.
Proof.
  induction k as [| k IH]; intros i slot; simpl; [lia |].
  destruct (observe (writes i) slot); simpl; [lia |].
  specialize (IH (S i) None). lia.
Qed.

(** C6: when nothing is ever in the response slot at any poll, the call
    makes exactly [max_attempts] (200) polls and returns
    ["Timeout waiting for response"]; no call ever polls more than
    [max_attempts] times. *)
Theorem wait_times_out_when_never_answered {McpCommand : Type}
  (writes : nat -> option McpResponse) (cmd : McpCommand) (b : bridge McpCommand)
  (Hslot : b.(response_slot) = None)
  (Hwrites : forall i, i < max_attempts -> writes i = None) :
  send_command_and_wait writes cmd b
  = (TIMEOUT_MESSAGE, mk_bridge (b.(command_queue) ++ [cmd])%list None, max_attempts)
  /\ (forall writes' (cmd' : McpCommand) b', snd (send_command_and_wait writes' cmd' b') <= max_attempts).
Proof.
  split.
  - unfold send_command_and_wait. rewrite Hslot.
    rewrite (poll_loop_silent writes max_attempts 0) by (intros j Hj; apply Hwrites; lia).
    reflexivity.
  - intros writes' cmd' b'. unfold send_command_and_wait.
    pose proof (poll_loop_bounded writes' max_attempts 0 b'.(response_slot)) as Hb.
    destruct (poll_loop _ _ _ _) as [[res slot] polls]. simpl in *. lia.
Qed.

Lemma wait_times_out_when_never_answered_witness :
  send_command_and_wait (fun _ => None) 7 (mk_bridge [] None)
  = (TIMEOUT_MESSAGE, mk_bridge [7] None, max_attempts)
  /\ (forall writes' (cmd' : nat) b', snd (send_command_and_wait writes' cmd' b') <= max_attempts).
Proof.
  apply (wait_times_out_when_never_answered (fun _ => None) 7 (mk_bridge [] None));
    [reflexivity | intros; reflexivity].
Defined.

(** C8: a response already in the slot at the first poll, for instance
    one set right after the command was queued, is returned by that first
    poll and the slot is emptied; the timeout string is not returned. *)
Theorem response_present_at_first_poll {McpCommand : Type}
  (writes : nat -> option McpResponse) (cmd : McpCommand) (b : bridge McpCommand)
  (r : McpResponse)
  (Hfirst : observe (writes 0) b.(response_slot) = Some r) :
  send_command_and_wait writes cmd b
  = (response_text r, mk_bridge (b.(command_queue) ++ [cmd])%list None, 1).
Proof.
  unfold send_command_and_wait, max_attempts. simpl poll_loop.
  rewrite Hfirst. reflexivity.
Qed.

Lemma response_present_at_first_poll_witness :
  send_command_and_wait (fun _ => None) 7 (respond_success "Entity spawned" (mk_bridge [] None))
  = ("Entity spawned", mk_bridge [7] None, 1).
Proof.
  apply (response_present_at_first_poll (fun _ => None) 7
           (respond_success "Entity spawned" (mk_bridge [] None)) (Success "Entity spawned")).
  reflexivity.
Defined.

(* ================================================================= *)
(** * The operation history *)

Lemma update_nth_length {A} (f : A -> A) (l : list A) :
  forall i, i < length l ->
  exists l', update_nth i f l = Some l' /\ length l' = length l.
Proof.
  induction l as [| x rest IH]; intros i Hi; simpl in *; [lia |].
  destruct i as [| j].
  - eexists. split; reflexivity.
  - destruct (IH j) as [l' [E L]]; [lia |].
    simpl. rewrite E. eexists. split; [reflexivity | simpl; lia].
Qed.

Lemma update_nth_nth {A} (f : A -> A) (l : list A) :
  forall i l', update_nth i f l = Some l' ->
  forall j, nth_error l' j = if Nat.eqb j i then option_map f (nth_error l i)
                             else nth_error l j.
Proof.
  induction l as [| x rest IH]; intros i l' E j; [destruct i; discriminate |].
  destruct i as [| i].
  - inversion E; subst. destruct j; reflexivity.
  - simpl in E.
    destruct (update_nth i f rest) as [r |] eqn:Er; [| discriminate E].
    simpl in E. inversion E; subst. destruct j as [| j]; [reflexivity |].
    simpl. rewrite (IH i r Er j). reflexivity.
Qed.

Lemma vec_pop_push (l : list nat) (x : nat) : vec_pop (l ++ [x])%list = Some (l, x).
Proof. unfold vec_pop. rewrite rev_app_distr. simpl. rewrite rev_involutive. reflexivity. Qed.

Lemma well_formed_current (h : OperationHistory) (c : nat) :
  well_formed h = true -> h.(current) = Some c -> c < length h.(nodes).
Proof.
  unfold well_formed, opt_in_bounds, in_bounds. intros Hwf Hc. rewrite Hc in Hwf.
  apply andb_prop in Hwf as [Hwf _]. apply andb_prop in Hwf as [Hwf _].
  apply Nat.ltb_lt. exact Hwf.
Qed.

(** C3: on every well-formed history, [push op] appends a node holding
    [op] whose parent is the old cursor, appends its index to that
    parent's children (the other nodes are untouched), moves the cursor to
    it and empties the redo stack, so that [redo] then has nothing to
    redo. *)
Theorem push_adds_child_and_clears_redo (h : OperationHistory) (op : Operation)
  (Hwf : well_formed h = true) :
  exists h', push h op = Some h'
  /\ length h'.(nodes) = S (length h.(nodes))
  /\ nth_error h'.(nodes) (length h.(nodes)) = Some (mk_node op h.(current) [])
  /\ (forall p n, h.(current) = Some p -> nth_error h.(nodes) p = Some n ->
        nth_error h'.(nodes) p
        = Some (mk_node n.(operation) n.(parent) (n.(children) ++ [length h.(nodes)])%list))
  /\ (forall j, j < length h.(nodes) -> h.(current) <> Some j ->
        nth_error h'.(nodes) j = nth_error h.(nodes) j)
  /\ h'.(current) = Some (length h.(nodes))
  /\ h'.(redo_stack) = []
  /\ redo h' = Some (h', None).
Proof.
  set (len := length h.(nodes)).
  set (nodes1 := (h.(nodes) ++ [mk_node op h.(current) []])%list).
  assert (Hlen1 : length nodes1 = S len)
    by (unfold nodes1, len; rewrite length_app; simpl; lia).
  assert (Hnew : nth_error nodes1 len = Some (mk_node op h.(current) [])).
  { unfold nodes1, len. rewrite nth_error_app2 by lia. rewrite Nat.sub_diag. reflexivity. }
  assert (Hold : forall j, j < len -> nth_error nodes1 j = nth_error h.(nodes) j).
  { intros j Hj. unfold nodes1. apply nth_error_app1. exact Hj. }
  unfold push. fold len. fold nodes1.
  destruct h.(current) as [p |] eqn:Hc.
  - pose proof (well_formed_current h p Hwf Hc) as Hp. fold len in Hp.
    destruct (update_nth_length (add_child len) nodes1 p) as [nodes2 [E L]]; [lia |].
    rewrite E. eexists. split; [reflexivity |]. simpl.
    pose proof (update_nth_nth (add_child len) nodes1 p nodes2 E) as Hn.
    repeat split.
    + lia.
    + rewrite Hn. replace (Nat.eqb len p) with false by (symmetry; apply Nat.eqb_neq; lia).
      exact Hnew.
    + intros p' n Hpp Hnp. inversion Hpp; subst p'.
      rewrite Hn, Nat.eqb_refl, Hold, Hnp by exact Hp. reflexivity.
    + intros j Hj Hne. rewrite Hn.
      replace (Nat.eqb j p) with false
        by (symmetry; apply Nat.eqb_neq; intros ->; apply Hne; reflexivity).
      apply Hold. exact Hj.
  - eexists. split; [reflexivity |]. simpl.
    repeat split.
    + exact Hlen1.
    + exact Hnew.
    + intros p n Hpp. discriminate.
    + intros j Hj _. apply Hold. exact Hj.
Qed.

Lemma push_adds_child_and_clears_redo_witness :
  exists h', push (mk_history [mk_node ResetGame None []] (Some 0) [0]) (CreateGame "{}") = Some h'
  /\ length h'.(nodes) = 2
  /\ nth_error h'.(nodes) 1 = Some (mk_node (CreateGame "{}") (Some 0) [])
  /\ (forall p n, Some 0 = Some p -> nth_error [mk_node ResetGame None []] p = Some n ->
        nth_error h'.(nodes) p
        = Some (mk_node n.(operation) n.(parent) (n.(children) ++ [1])%list))
  /\ (forall j, j < 1 -> Some 0 <> Some j -> nth_error h'.(nodes) j = nth_error [mk_node ResetGame None []] j)
  /\ h'.(current) = Some 1
  /\ h'.(redo_stack) = []
  /\ redo h' = Some (h', None).
Proof.
  apply (push_adds_child_and_clears_redo (mk_history [mk_node ResetGame None []] (Some 0) [0])
           (CreateGame "{}")).
  reflexivity.
Defined.

(** C4: on a well-formed history whose cursor is set, [undo] followed
    by [redo] gives back exactly the history before the undo (so the same
    cursor) and both return the same operation.  After [push A; push B]
    from the empty history, [undo] returns [B] with the cursor on [A]'s
    node 0 and [redo] returns [B] with the cursor back on node 1. *)
Theorem undo_then_redo_restores (h : OperationHistory) (c : nat)
  (Hwf : well_formed h = true) (Hc : h.(current) = Some c) :
  (exists op h1, undo h = Some (h1, Some op) /\ redo h1 = Some (h, Some op))
  /\ (forall A B, exists hA hB h1,
        push empty_history A = Some hA /\ push hA B = Some hB
        /\ undo hB = Some (h1, Some B) /\ h1.(current) = Some 0
        /\ redo h1 = Some (hB, Some B) /\ hB.(current) = Some 1).
Proof.
  split.
  - pose proof (well_formed_current h c Hwf Hc) as Hlt.
    destruct (nth_error h.(nodes) c) as [n |] eqn:En;
      [| apply nth_error_None in En; lia].
    exists n.(operation), (mk_history h.(nodes) n.(parent) (h.(redo_stack) ++ [c])%list).
    unfold undo, redo. rewrite Hc, En. split; [reflexivity |].
    simpl. rewrite vec_pop_push, En.
    destruct h as [ns cur rs]. simpl in Hc. subst cur. reflexivity.
  - intros A B. do 3 eexists. repeat split.
Qed.

Lemma undo_then_redo_restores_witness :
  (exists op h1, undo (mk_history [mk_node ResetGame None []] (Some 0) []) = Some (h1, Some op)
     /\ redo h1 = Some (mk_history [mk_node ResetGame None []] (Some 0) [], Some op))
  /\ (forall A B, exists hA hB h1,
        push empty_history A = Some hA /\ push hA B = Some hB
        /\ undo hB = Some (h1, Some B) /\ h1.(current) = Some 0
        /\ redo h1 = Some (hB, Some B) /\ hB.(current) = Some 1).
Proof.
  apply (undo_then_redo_restores (mk_history [mk_node ResetGame None []] (Some 0) []) 0);
    reflexivity.
Defined.

(** The shape a history has after pushes from empty: node [i]'s parent
    is node [i - 1] (none for node 0). *)
Definition cur_of (m : nat) : option nat :=
  match m with
  | O => None
  | S j => Some j
  end.

Definition linear_parents (h : OperationHistory) : Prop :=
  forall i n, nth_error h.(nodes) i = Some n -> n.(parent) = cur_of i.

Lemma push_linear (h : OperationHistory) (op : Operation) :
  linear_parents h -> h.(current) = cur_of (length h.(nodes)) ->
  exists h1, push h op = Some h1 /\ linear_parents h1
             /\ h1.(current) = cur_of (length h1.(nodes))
             /\ length h1.(nodes) = S (length h.(nodes)).
Proof.
  intros Hlin Hcur.
  destruct h as [ns cur rs]. simpl in *. subst cur.
  assert (Hlin1 : forall i n, nth_error (ns ++ [mk_node op (cur_of (length ns)) []])%list i = Some n
                              -> n.(parent) = cur_of i).
  { intros i n Hi.
    destruct (Nat.lt_ge_cases i (length ns)) as [Hl | Hg].
    - rewrite nth_error_app1 in Hi by exact Hl. exact (Hlin i n Hi).
    - rewrite nth_error_app2 in Hi by exact Hg.
      destruct (i - length ns) as [| k] eqn:Ek.
      + simpl in Hi. inversion Hi; subst. simpl. f_equal. lia.
      + simpl in Hi. destruct k; discriminate Hi. }
  unfold push. simpl.
  destruct (length ns) as [| j] eqn:Elen.
  - eexists. split; [reflexivity |]. simpl.
    rewrite length_app, Elen. repeat split; exact Hlin1.
  - assert (Hj : j < length (ns ++ [mk_node op (Some j) []])%list)
      by (rewrite length_app; simpl; lia).
    destruct (update_nth_length (add_child (S j)) _ j Hj) as [nodes2 [E L]].
    change (cur_of (S j)) with (Some j). cbv beta iota. rewrite E. eexists. split; [reflexivity |]. simpl.
    rewrite L, length_app, Elen. simpl.
    split; [| split; [f_equal; lia | lia]].
    intros i n Hi. simpl in Hi. rewrite (update_nth_nth _ _ _ _ E i) in Hi.
    destruct (Nat.eqb i j) eqn:Eij.
    + apply Nat.eqb_eq in Eij. subst i.
      destruct (nth_error (ns ++ [mk_node op (Some j) []])%list j) as [m |] eqn:Em;
        simpl in Hi; [| discriminate Hi].
      inversion Hi; subst n. simpl. exact (Hlin1 j m Em).
    + exact (Hlin1 i n Hi).
Qed.

Lemma push_all_linear (ops : list Operation) :
  forall h, linear_parents h -> h.(current) = cur_of (length h.(nodes)) ->
  exists h', push_all ops h = Some h' /\ linear_parents h'
             /\ h'.(current) = cur_of (length h'.(nodes))
             /\ length h'.(nodes) = length h.(nodes) + length ops.
Proof.
  induction ops as [| op rest IH]; intros h Hlin Hcur.
  - exists h. simpl. repeat split; auto.
  - destruct (push_linear h op Hlin Hcur) as [h1 [Hp [Hlin1 [Hc1 Hl1]]]].
    destruct (IH h1 Hlin1 Hc1) as [h' [E' [Hl' [Hc' Hlen']]]].
    exists h'. simpl. rewrite Hp. repeat split; auto.
    rewrite Hlen', Hl1. simpl. lia.
Qed.

Lemma undo_n_linear (m : nat) :
  forall h, linear_parents h -> h.(current) = cur_of m -> m <= length h.(nodes) ->
  exists h', undo_n m h = Some h' /\ h'.(current) = None /\ h'.(nodes) = h.(nodes).
Proof.
  induction m as [| j IH]; intros h Hlin Hcur Hle.
  - exists h. repeat split. exact Hcur.
  - destruct (nth_error h.(nodes) j) as [n |] eqn:En;
      [| apply nth_error_None in En; lia].
    set (h1 := mk_history h.(nodes) n.(parent) (h.(redo_stack) ++ [j])%list).
    assert (Hu : undo h = Some (h1, Some n.(operation))).
    { unfold undo. rewrite Hcur. simpl. rewrite En. reflexivity. }
    destruct (IH h1) as [h' [E [Hc' Hn']]].
    + exact Hlin.
    + exact (Hlin j n En).
    + simpl. lia.
    + exists h'. simpl. rewrite Hu. repeat split; assumption.
Qed.

(** C7: for every list of [N] operations pushed on the empty history,
    [N] undos leave the cursor unset; the next [undo] returns nothing and
    [handle_undo] then reports ["Nothing to undo"]. *)
Theorem undo_every_push (ops : list Operation) :
  exists h h', push_all ops empty_history = Some h
  /\ undo_n (length ops) h = Some h'
  /\ h'.(current) = None
  /\ undo h' = Some (h', None)
  /\ handle_undo h' = Some (h', inl "Nothing to undo").
Proof.
  destruct (push_all_linear ops empty_history) as [h [Hp [Hlin [Hc Hlen]]]].
  - intros i n Hi. destruct i; discriminate Hi.
  - reflexivity.
  - simpl in Hlen.
    destruct (undo_n_linear (length ops) h Hlin) as [h' [Hu [Hc' _]]].
    + rewrite Hc, Hlen. reflexivity.
    + lia.
    + exists h, h'.
      assert (Hund : undo h' = Some (h', None)) by (unfold undo; rewrite Hc'; reflexivity).
      repeat split; try assumption.
      unfold handle_undo. rewrite Hund. reflexivity.
Qed.

(** Every history the program builds is well formed, so the premise of
    C3 and C4 holds of every history reachable from [Default]. *)
Definition wf_prop (h : OperationHistory) : Prop :=
  (forall c, h.(current) = Some c -> c < length h.(nodes))
  /\ (forall i, In i h.(redo_stack) -> i < length h.(nodes))
  /\ (forall n p, In n h.(nodes) -> n.(parent) = Some p -> p < length h.(nodes)).

Lemma well_formed_iff (h : OperationHistory) : well_formed h = true <-> wf_prop h.
Proof.
  unfold well_formed, wf_prop, opt_in_bounds, in_bounds.
  rewrite !Bool.andb_true_iff, !forallb_forall.
  split.
  - intros [[Hc Hr] Hn]. repeat split.
    + intros c E. rewrite E in Hc. apply Nat.ltb_lt. exact Hc.
    + intros i Hi. apply Nat.ltb_lt. exact (Hr i Hi).
    + intros n p Hin Hp. specialize (Hn n Hin). rewrite Hp in Hn. apply Nat.ltb_lt. exact Hn.
  - intros [Hc [Hr Hn]]. repeat split.
    + destruct h.(current) as [c |]; [apply Nat.ltb_lt, Hc |]; reflexivity.
    + intros i Hi. apply Nat.ltb_lt. exact (Hr i Hi).
    + intros n Hin. destruct n.(parent) as [p |] eqn:Hp; [| reflexivity].
      apply Nat.ltb_lt. exact (Hn n p Hin Hp).
Qed.

Lemma update_nth_in {A} (f : A -> A) (l : list A) :
  forall i l' x, update_nth i f l = Some l' -> In x l' -> In x l \/ exists y, In y l /\ x = f y.
Proof.
  induction l as [| a rest IH]; intros i l' x E Hx; [destruct i; discriminate E |].
  destruct i as [| i]; simpl in E.
  - inversion E; subst. destruct Hx as [<- | Hx].
    + right. exists a. simpl. auto.
    + left. simpl. auto.
  - destruct (update_nth i f rest) as [r |] eqn:Er; [| discriminate E].
    simpl in E. inversion E; subst. destruct Hx as [<- | Hx].
    + left. simpl. auto.
    + destruct (IH i r x Er Hx) as [H | [y [Hy ->]]].
      * left. simpl. auto.
      * right. exists y. simpl. auto.
Qed.

Lemma vec_pop_app (l r : list nat) (x : nat) : vec_pop l = Some (r, x) -> l = (r ++ [x])%list.
Proof.
  unfold vec_pop. destruct (rev l) as [| y r'] eqn:E; [discriminate |].
  intros H. inversion H; subst.
  rewrite <- (rev_involutive l), E. reflexivity.
Qed.

Lemma reachable_well_formed (h : OperationHistory) : reachable h -> well_formed h = true.
Proof.
  intros Hr. apply well_formed_iff.
  induction Hr as [| h op h' _ IH Hp | h h' o _ IH Hu | h h' o _ IH Hu | h _ IH].
  - repeat split; simpl; intros; [discriminate | contradiction | contradiction].
  - destruct IH as [Hc [Hrs Hn]]. unfold push in Hp.
    set (len := length h.(nodes)) in *.
    set (nodes1 := (h.(nodes) ++ [mk_node op h.(current) []])%list) in *.
    assert (L1 : length nodes1 = S len)
      by (unfold nodes1, len; rewrite length_app; simpl; lia).
    assert (N1 : forall n p, In n nodes1 -> n.(parent) = Some p -> p < S len).
    { intros n p Hin Hpar. unfold nodes1 in Hin. apply in_app_or in Hin as [Hin | [<- | []]].
      - specialize (Hn n p Hin Hpar). lia.
      - simpl in Hpar. specialize (Hc p Hpar). lia. }
    destruct h.(current) as [p |] eqn:Hcur.
    + destruct (update_nth p (add_child len) nodes1) as [nodes2 |] eqn:E; [| discriminate Hp].
      inversion Hp; subst h'. clear Hp.
      assert (L2 : length nodes2 = S len).
      { destruct (update_nth_length (add_child len) nodes1 p) as [l2 [E2 L]].
        - specialize (Hc p eq_refl). lia.
        - rewrite E in E2. inversion E2; subst. lia. }
      repeat split; simpl; rewrite L2.
      * intros c Ec. inversion Ec. lia.
      * intros i [].
      * intros n q Hin Hq. destruct (update_nth_in _ _ _ _ _ E Hin) as [H | [y [Hy ->]]].
        -- exact (N1 n q H Hq).
        -- exact (N1 y q Hy Hq).
    + inversion Hp; subst h'. clear Hp.
      repeat split; simpl; rewrite L1.
      * intros c Ec. inversion Ec. lia.
      * intros i [].
      * exact N1.
  - destruct IH as [Hc [Hrs Hn]]. unfold undo in Hu.
    destruct h.(current) as [c |] eqn:Hcur.
    + destruct (nth_error h.(nodes) c) as [n |] eqn:En; [| discriminate Hu].
      inversion Hu; subst h'. clear Hu.
      repeat split; simpl.
      * intros p Hp. exact (Hn n p (nth_error_In _ _ En) Hp).
      * intros i Hi. apply in_app_or in Hi as [Hi | [<- | []]]; [exact (Hrs i Hi) |].
        first [exact (Hc c eq_refl) | exact (Hc c Hcur)].
      * exact Hn.
    + inversion Hu; subst h'. repeat split; [rewrite Hcur; exact Hc | exact Hrs | exact Hn].
  - destruct IH as [Hc [Hrs Hn]]. unfold redo in Hu.
    destruct (vec_pop h.(redo_stack)) as [[rest i] |] eqn:Ep.
    + destruct (nth_error h.(nodes) i) as [n |] eqn:En; [| discriminate Hu].
      inversion Hu; subst h'. clear Hu.
      apply vec_pop_app in Ep.
      repeat split; simpl.
      * intros c Ec. inversion Ec; subst c. apply Hrs. rewrite Ep.
        apply in_or_app. right. left. reflexivity.
      * intros j Hj. apply Hrs. rewrite Ep. apply in_or_app. left. exact Hj.
      * exact Hn.
    + inversion Hu; subst h'. repeat split; [exact Hc | exact Hrs | exact Hn].
  - repeat split; simpl; intros; [discriminate | contradiction | contradiction].
Qed.

(* ================================================================= *)
(** * Further properties of the stream decoder *)

Ltac split_decoder :=
  repeat match goal with
         | |- context [if ?b then _ else _] => destruct b
         | |- context [match ?x with _ => _ end] => destruct x
         end.

(** Each parsed line produces at most one event. *)
Theorem parse_line_at_most_one_event (v : value) (st : decoder) :
  length (fst (parse_stream_json_line v st)) <= 1.
Proof.
  unfold parse_stream_json_line. cbv zeta. split_decoder; simpl; lia.
Qed.

Lemma parse_line_session (v : value) (st : decoder) :
  session_id (snd (parse_stream_json_line v st)) = unwrap_or (system_session v) (session_id st).
Proof.
  unfold parse_stream_json_line, system_session. cbv zeta.
  destruct (String.eqb (unwrap_or (get_str "type" v) "") "system").
  - destruct (get_str "session_id" v); reflexivity.
  - split_decoder; reflexivity.
Qed.

(** The decoder's carried [session_id] is always the one announced by
    the last [system] line carrying a string [session_id], or the one it
    started with if there was none. *)
Theorem decode_session_is_last_announced (vs : list value) :
  forall st, session_id (snd (decode_values vs st)) = last_system_session vs (session_id st).
Proof.
  induction vs as [| v rest IH]; intros st; [reflexivity |].
  simpl. pose proof (parse_line_session v st) as Hs.
  destruct (parse_stream_json_line v st) as [evs st1] eqn:E.
  specialize (IH st1).
  destruct (decode_values rest st1) as [evs' st2]. simpl in *.
  rewrite IH, Hs. reflexivity.
Qed.

Lemma decode_values_app (xs ys : list value) (st : decoder) :
  decode_values (xs ++ ys) st
  = let (e1, s1) := decode_values xs st in
    let (e2, s2) := decode_values ys s1 in ((e1 ++ e2)%list, s2).
Proof.
  revert st. induction xs as [| x rest IH]; intros st; simpl.
  - destruct (decode_values ys st). reflexivity.
  - destruct (parse_stream_json_line x st) as [e s1].
    rewrite IH. destruct (decode_values rest s1) as [e1 s2].
    destruct (decode_values ys s2) as [e2 s3]. rewrite app_assoc. reflexivity.
Qed.

Lemma decode_values_cons (v : value) (rest : list value) (st : decoder) :
  decode_values (v :: rest) st
  = let (evs, st1) := parse_stream_json_line v st in
    let (evs', st2) := decode_values rest st1 in ((evs ++ evs')%list, st2).
Proof. reflexivity. Qed.

Lemma decode_input_deltas (ps : list string) :
  forall d, decode_values (map input_delta_line ps) d
            = (map (Cli.ToolUseInputDelta d.(current_tool_id)) ps, d).
Proof.
  induction ps as [| p rest IH]; intros d; [reflexivity |].
  simpl map. rewrite decode_values_cons.
  change (parse_stream_json_line (input_delta_line p) d)
    with ([Cli.ToolUseInputDelta d.(current_tool_id) p], d).
  cbv beta iota. rewrite IH. reflexivity.
Qed.

(** Decoding of a streamed tool-use block. *)
Lemma tool_block_decode (name id : string) (ps : list string) (st : decoder) :
  decode_values ([tool_start_line name id] ++ map input_delta_line ps ++ [line_block_stop])%list st
  = (([Cli.ToolUseStarted name id] ++ map (Cli.ToolUseInputDelta id) ps
      ++ [Cli.ToolUseFinished id])%list, mk_decoder st.(session_id) "").
Proof.
  rewrite decode_values_app.
  change (decode_values [tool_start_line name id] st)
    with (([Cli.ToolUseStarted name id] ++ [])%list, mk_decoder st.(session_id) id).
  cbv beta iota.
  rewrite decode_values_app, decode_input_deltas. simpl current_tool_id.
  cbv beta iota.
  change (decode_values [line_block_stop] (mk_decoder st.(session_id) id))
    with (([Cli.ToolUseFinished id] ++ [])%list, mk_decoder st.(session_id) "").
  cbv beta iota.
  rewrite !app_nil_r. reflexivity.
Qed.

(** A [result] line always yields exactly one [Complete] carrying the
    carried session id and leaves the decoder unchanged; its
    [num_turns] is below [2^32], and 0 when [num_turns] is missing or
    not a non-negative integer. *)
Theorem result_line_completes (v : value) (st : decoder)
  (Htype : get_str "type" v = Some "result") :
  exists cost turns,
    parse_stream_json_line v st = ([Cli.Complete st.(session_id) cost turns], st)
    /\ (turns < 2 ^ 32)%N
    /\ (and_then (get "num_turns" v) as_u64 = None -> turns = 0%N).
Proof.
  unfold parse_stream_json_line. rewrite Htype. cbv zeta. simpl.
  eexists. eexists. split; [reflexivity |]. split.
  - unfold u64_as_u32. apply N.mod_lt. discriminate.
  - intros H. rewrite H. reflexivity.
Qed.

Lemma result_line_completes_witness :
  exists cost turns,
    parse_stream_json_line (Object [("type", Str "result")]) empty_decoder
    = ([Cli.Complete "" cost turns], empty_decoder)
    /\ (turns < 2 ^ 32)%N
    /\ (and_then (get "num_turns" (Object [("type", Str "result")])) as_u64 = None -> turns = 0%N).
Proof. apply (result_line_completes (Object [("type", Str "result")]) empty_decoder). reflexivity. Defined.

(** A tool-use block streamed as its start, any number of
    [input_json_delta] fragments and its stop decodes, from any decoder
    state, to [ToolUseStarted], one [ToolUseInputDelta] per fragment in
    order, all tagged with the block's id, and [ToolUseFinished] with
    the same id; the tool id is cleared and the session kept. *)
Theorem tool_block_round_trip (name id : string) (ps : list string) (st : decoder) :
  decode_values ([tool_start_line name id] ++ map input_delta_line ps ++ [line_block_stop])%list st
  = (([Cli.ToolUseStarted name id] ++ map (Cli.ToolUseInputDelta id) ps
      ++ [Cli.ToolUseFinished id])%list, mk_decoder st.(session_id) "").
Proof. exact (tool_block_decode name id ps st). Qed.

(* ================================================================= *)
(** * From the stream to the web UI *)

Import Protocol.

Lemma str_append_assoc (a b c : string) : (a ++ b) ++ c = a ++ (b ++ c).
Proof. induction a as [| x a IH]; simpl; [reflexivity | rewrite IH; reflexivity]. Qed.

Lemma str_append_nil_r (a : string) : a ++ "" = a.
Proof. induction a as [| x a IH]; simpl; [reflexivity | rewrite IH; reflexivity]. Qed.

Lemma forward_all_app (t : bool) (xs ys : list CliEvent) :
  forward_all t (xs ++ ys)
  = let (o1, t1) := forward_all t xs in
    let (o2, t2) := forward_all t1 ys in ((o1 ++ o2)%list, t2).
Proof.
  revert t. induction xs as [| x rest IH]; intros t; simpl.
  - destruct (forward_all t ys). reflexivity.
  - destruct (forward_cli_event t x) as [o t1].
    rewrite IH. destruct (forward_all t1 rest) as [o1 t2].
    destruct (forward_all t2 ys) as [o2 t3]. rewrite app_assoc. reflexivity.
Qed.

Lemma forward_input_deltas (t : bool) (id : string) (ps : list string) :
  forward_all t (map (Cli.ToolUseInputDelta id) ps) = (map (ToolUseInputDelta id) ps, t).
Proof.
  induction ps as [| p rest IH]; [reflexivity |].
  simpl. rewrite IH. reflexivity.
Qed.

Lemma update_last_snoc (p : ToolUseBlock -> bool) (f : ToolUseBlock -> ToolUseBlock)
  (l : list ToolUseBlock) (x : ToolUseBlock) :
  p x = true -> update_last p f (l ++ [x])%list = (l ++ [f x])%list.
Proof.
  intros Hx. induction l as [| y rest IH]; simpl.
  - rewrite Hx. reflexivity.
  - assert (Hex : existsb p (rest ++ [x])%list = true).
    { apply existsb_exists. exists x. split; [apply in_or_app; right; left; reflexivity | exact Hx]. }
    rewrite Hex, IH. reflexivity.
Qed.

Lemma matches_own_tool (name id json : string) (b : bool) :
  matches_tool id (mk_block name id json b) = true.
Proof. unfold matches_tool. simpl. rewrite String.eqb_refl. reflexivity. Qed.

Lemma handle_delta_snoc (name id p : string) sid text thinking l acc b :
  handle_backend_event (ToolUseInputDelta id p)
    (mk_view sid text thinking (l ++ [mk_block name id acc b])%list)
  = mk_view sid text thinking (l ++ [mk_block name id (acc ++ p) b])%list.
Proof.
  unfold handle_backend_event. simpl.
  rewrite update_last_snoc by apply matches_own_tool. reflexivity.
Qed.

Lemma hb_status (a : AgentStatus) (s : stream_view) :
  handle_backend_event (StatusUpdate a) s = s.
Proof. reflexivity. Qed.

Lemma hb_started (name id : string) sid text thinking tools :
  handle_backend_event (ToolUseStarted name id) (mk_view sid text thinking tools)
  = mk_view sid text thinking (tools ++ [mk_block name id "" false])%list.
Proof. reflexivity. Qed.

Lemma hb_finished (name id json : string) sid text thinking l b :
  handle_backend_event (ToolUseFinished id)
    (mk_view sid text thinking (l ++ [mk_block name id json b])%list)
  = mk_view sid text thinking (l ++ [mk_block name id json true])%list.
Proof.
  unfold handle_backend_event. simpl.
  rewrite update_last_snoc by apply matches_own_tool. reflexivity.
Qed.

Lemma handle_input_deltas (name id : string) (ps : list string) :
  forall sid text thinking l acc,
  handle_all (map (ToolUseInputDelta id) ps)
    (mk_view sid text thinking (l ++ [mk_block name id acc false])%list)
  = mk_view sid text thinking (l ++ [mk_block name id (acc ++ concat_strings ps) false])%list.
Proof.
  induction ps as [| p rest IH]; intros sid text thinking l acc.
  - simpl. rewrite str_append_nil_r. reflexivity.
  - unfold handle_all. cbn [map fold_left].
    rewrite handle_delta_snoc.
    fold (handle_all (map (ToolUseInputDelta id) rest)).
    rewrite IH, str_append_assoc. reflexivity.
Qed.

(** End to end: a tool-use block streamed as its start, any number of
    [input_json_delta] fragments and its stop, decoded and forwarded to
    the web UI, appends to the UI's active tools one finished block with
    the tool's name and id whose [input_json] is the concatenation of the
    fragments in order; the reply text and thinking text are untouched. *)
Theorem tool_block_reaches_ui (name id : string) (ps : list string) (st : decoder)
  (t : bool) (s : stream_view) :
  let evs := fst (decode_values ([tool_start_line name id] ++ map input_delta_line ps
                                 ++ [line_block_stop])%list st) in
  handle_all (fst (forward_all t evs)) s
  = mk_view s.(current_session_id) s.(streaming_text) s.(thinking_text)
            (s.(active_tools) ++ [mk_block name id (concat_strings ps) true])%list.
Proof.
  cbv zeta. rewrite tool_block_decode. cbn [fst].
  rewrite forward_all_app.
  change (forward_all t [Cli.ToolUseStarted name id])
    with (([StatusUpdate (UsingTool name); ToolUseStarted name id] ++ [])%list, t).
  cbv beta iota.
  rewrite forward_all_app, forward_input_deltas. cbv beta iota.
  change (forward_all t [Cli.ToolUseFinished id])
    with (([ToolUseFinished id; StatusUpdate Streaming] ++ [])%list, t).
  cbv beta iota. cbn [fst]. rewrite !app_nil_r.
  destruct s as [sid text thinking tools].
  unfold handle_all. rewrite !fold_left_app. cbn [fold_left].
  rewrite (hb_status (UsingTool name)), hb_started.
  pose proof (handle_input_deltas name id ps sid text thinking tools "") as H.
  unfold handle_all in H. rewrite H.
  rewrite hb_finished, hb_status. reflexivity.
Qed.

(* ================================================================= *)
(** * Further properties of the CLI worker *)

Lemma live_app (a b : list action) (l : list Child) : live (a ++ b) l = live b (live a l).
Proof.
  revert l. induction a as [| x a IH]; intros l; [reflexivity |].
  destruct x; simpl; apply IH.
Qed.

Lemma live_step (spawned : Child + string) (cmd : CliCommand) (w : worker) :
  live (snd (worker_step spawned cmd w)) (opt_to_list w.(current_child))
  = opt_to_list (fst (worker_step spawned cmd w)).(current_child).
Proof.
  destruct w as [[c |] sid]; destruct cmd; try destruct spawned; simpl;
    try rewrite Nat.eqb_refl; reflexivity.
Qed.

(** Over any sequence of commands from the initial worker, the
    processes still alive (spawned and not yet waited for) are exactly
    the worker's current child: a new query kills and waits for the
    previous process before spawning, so two processes never overlap. *)
Theorem at_most_one_live_process (cmds : list ((Child + string) * CliCommand)) :
  live (snd (worker_run cmds initial_worker)) []
  = opt_to_list (fst (worker_run cmds initial_worker)).(current_child).
Proof.
  change (@nil Child) with (opt_to_list initial_worker.(current_child)).
  generalize initial_worker as w.
  induction cmds as [| [spawned cmd] rest IH]; intros w; [reflexivity |].
  simpl. pose proof (live_step spawned cmd w) as Hs.
  destruct (worker_step spawned cmd w) as [w1 acts1]. simpl in Hs.
  specialize (IH w1).
  destruct (worker_run rest w1) as [w2 acts2]. simpl in *.
  rewrite live_app, Hs. exact IH.
Qed.

(* ================================================================= *)
(** * Further properties of the command/response bridge *)

Lemma poll_loop_cases (writes : nat -> option McpResponse) (k : nat) :
  forall i,
  let '(res, slot', n) := poll_loop k i writes None in
  slot' = None /\ i <= n <= i + k
  /\ ((res = TIMEOUT_MESSAGE /\ n = i + k /\ forall j, i <= j < i + k -> writes j = None)
      \/ (exists r, i < n /\ writes (n - 1) = Some r /\ res = response_text r
                    /\ forall j, i <= j < n - 1 -> writes j = None)).
Proof.
  induction k as [| k IH]; intros i; simpl.
  - repeat split; try lia. left. repeat split; lia.
  - destruct (writes i) as [r |] eqn:Ew; simpl.
    + repeat split; try lia. right. exists r.
      rewrite Nat.sub_0_r. repeat split; try lia; auto.
    + specialize (IH (S i)).
      destruct (poll_loop k (S i) writes None) as [[res slot'] n].
      destruct IH as [Hs [Hn [[Hr [Hk Hw]] | [r [Hlt [Hw1 [Hr Hw]]]]]]].
      * repeat split; try lia; auto. left. repeat split; [exact Hr | lia |].
        intros j Hj. destruct (Nat.eq_dec j i) as [-> | Hne]; [exact Ew | apply Hw; lia].
      * repeat split; try lia; auto. right. exists r. repeat split; try lia; auto.
        intros j Hj. destruct (Nat.eq_dec j i) as [-> | Hne]; [exact Ew | apply Hw; lia].
Qed.

(** Every call queues its command at the end of the queue, polls at
    least once and at most [max_attempts] times, and leaves the slot
    empty.  It returns either the timeout string after [max_attempts]
    polls that all saw an empty slot, or the text of the response seen
    by its last poll, all earlier polls having seen an empty slot. *)
Theorem wait_outcomes {McpCommand : Type}
  (writes : nat -> option McpResponse) (cmd : McpCommand) (b : bridge McpCommand) :
  let '(res, b', n) := send_command_and_wait writes cmd b in
  b'.(command_queue) = (b.(command_queue) ++ [cmd])%list
  /\ b'.(response_slot) = None
  /\ 1 <= n <= max_attempts
  /\ ((res = TIMEOUT_MESSAGE /\ n = max_attempts
       /\ forall i, i < max_attempts -> observed writes b.(response_slot) i = None)
      \/ (exists r, observed writes b.(response_slot) (n - 1) = Some r
                    /\ res = response_text r
                    /\ forall i, i < n - 1 -> observed writes b.(response_slot) i = None)).
Proof.
  unfold send_command_and_wait, max_attempts.
  change (poll_loop 200 0 writes b.(response_slot)) with
    (match observe (writes 0) b.(response_slot) with
     | Some r => (response_text r, None, 1)
     | None => poll_loop 199 1 writes None
     end).
  destruct (observe (writes 0) b.(response_slot)) as [r |] eqn:E0; cbv beta iota.
  - repeat split; try lia. right. exists r. repeat split; auto. intros i Hi. lia.
  - pose proof (poll_loop_cases writes 199 1) as Hc.
    destruct (poll_loop 199 1 writes None) as [[res slot'] n].
    destruct Hc as [Hs [Hn [[Hr [Hk Hw]] | [r [Hlt [Hw1 [Hr Hw]]]]]]];
      cbv beta iota; repeat split; try lia; auto.
    + left. repeat split; [exact Hr | lia |].
      intros [| i] Hi; [exact E0 |]. unfold observed, observe. rewrite Hw by lia. reflexivity.
    + right. exists r. destruct n as [| [| n]]; try lia.
      replace (S (S n) - 1) with (S n) in * by lia.
      split; [unfold observed, observe; rewrite Hw1; reflexivity |].
      split; [exact Hr |].
      intros [| i] Hi; [exact E0 |]. unfold observed, observe. rewrite Hw by lia. reflexivity.
Qed.

(* ================================================================= *)
(** * Further properties of the operation history *)

Lemma undo_some_redo (h h1 : OperationHistory) (op : Operation) :
  undo h = Some (h1, Some op) -> redo h1 = Some (h, Some op).
Proof.
  unfold undo. destruct h as [ns [cur |] rs]; simpl; [| discriminate].
  destruct (nth_error ns cur) as [n |] eqn:E; [| discriminate].
  intros H. inversion H; subst. unfold redo. simpl.
  rewrite vec_pop_push, E. reflexivity.
Qed.

Lemma redos_snoc (k : nat) : forall h,
  redos (S k) h
  = match redos k h with
    | Some (h1, os) =>
        match redo h1 with
        | Some (h2, o) => Some (h2, (os ++ [o])%list)
        | None => None
        end
    | None => None
    end.
Proof.
  induction k as [| k IH]; intros h.
  - simpl. destruct (redo h) as [[h1 o] |]; reflexivity.
  - change (redos (S (S k)) h)
      with (match redo h with
            | Some (h1, o) =>
                match redos (S k) h1 with
                | Some (h2, os) => Some (h2, o :: os)
                | None => None
                end
            | None => None
            end).
    change (redos (S k) h)
      with (match redo h with
            | Some (h1, o) =>
                match redos k h1 with
                | Some (h2, os) => Some (h2, o :: os)
                | None => None
                end
            | None => None
            end).
    destruct (redo h) as [[h1 o] |]; [| reflexivity].
    rewrite IH. destruct (redos k h1) as [[h2 os] |]; [| reflexivity].
    destruct (redo h2) as [[h3 o'] |]; reflexivity.
Qed.

(** [k] undos that all step back over an operation are undone by [k]
    redos: these give back the history exactly as it was, and return the
    same operations in the reverse order. *)
Theorem undos_then_redos (k : nat) (h h' : OperationHistory) (os : list (option Operation))
  (Hu : undos k h = Some (h', os)) (Hsome : ~ In None os) :
  redos k h' = Some (h, rev os).
Proof.
  revert h h' os Hu Hsome. induction k as [| k IH]; intros h h' os Hu Hsome.
  - simpl in Hu. inversion Hu; subst. reflexivity.
  - simpl in Hu.
    destruct (undo h) as [[h1 o] |] eqn:E1; [| discriminate].
    destruct (undos k h1) as [[h2 os'] |] eqn:E2; [| discriminate].
    inversion Hu; subst h2 os.
    destruct o as [op |]; [| exfalso; apply Hsome; left; reflexivity].
    rewrite redos_snoc, (IH h1 h' os' E2 (fun H => Hsome (or_intror H))).
    rewrite (undo_some_redo h h1 op E1). reflexivity.
Qed.

Lemma undos_then_redos_witness :
  exists h' os,
    undos 2 (mk_history [mk_node ResetGame None [1]; mk_node (CreateGame "{}") (Some 0) []]
               (Some 1) []) = Some (h', os)
    /\ ~ In None os
    /\ redos 2 h'
       = Some (mk_history [mk_node ResetGame None [1]; mk_node (CreateGame "{}") (Some 0) []]
                 (Some 1) [], rev os).
Proof.
  eexists. eexists. split; [vm_compute; reflexivity |].
  split; [simpl; intros [H | [H | []]]; discriminate |].
  apply undos_then_redos; [vm_compute; reflexivity |].
  simpl; intros [H | [H | []]]; discriminate.
Defined.

(** On a history the program can build, the handlers report nothing to
    undo exactly when the cursor is unset and nothing to redo exactly
    when the redo stack is empty, and in both cases leave the history
    unchanged. *)
Theorem nothing_to_undo_or_redo (h : OperationHistory) (Hwf : well_formed h = true) :
  (handle_undo h = Some (h, inl "Nothing to undo") <-> h.(current) = None)
  /\ (handle_redo h = Some (h, inl "Nothing to redo") <-> h.(redo_stack) = []).
Proof.
  apply well_formed_iff in Hwf as Hp. destruct Hp as [Hc [Hr _]].
  split; split.
  - unfold handle_undo, undo. destruct h.(current) as [cur |] eqn:E; [| reflexivity].
    assert (Hlt : cur < length h.(nodes)) by (apply Hc; reflexivity).
    destruct (nth_error h.(nodes) cur) eqn:En; [discriminate |].
    apply nth_error_None in En. lia.
  - intros E. unfold handle_undo, undo. rewrite E. reflexivity.
  - unfold handle_redo, redo. destruct (vec_pop h.(redo_stack)) as [[rest idx] |] eqn:E.
    + apply vec_pop_app in E.
      assert (Hlt : idx < length h.(nodes))
        by (apply Hr; rewrite E; apply in_or_app; right; left; reflexivity).
      destruct (nth_error h.(nodes) idx) eqn:En; [discriminate |].
      apply nth_error_None in En. lia.
    + intros _. unfold vec_pop in E. destruct (rev h.(redo_stack)) eqn:Er; [| discriminate].
      rewrite <- (rev_involutive h.(redo_stack)), Er. reflexivity.
  - intros E. unfold handle_redo, redo. rewrite E. reflexivity.
Qed.

Lemma nothing_to_undo_or_redo_witness :
  (handle_undo (mk_history [mk_node ResetGame None []] None [0])
     = Some (mk_history [mk_node ResetGame None []] None [0], inl "Nothing to undo")
   <-> current (mk_history [mk_node ResetGame None []] None [0]) = None)
  /\ (handle_redo (mk_history [mk_node ResetGame None []] None [0])
     = Some (mk_history [mk_node ResetGame None []] None [0], inl "Nothing to redo")
   <-> redo_stack (mk_history [mk_node ResetGame None []] None [0]) = []).
Proof. apply nothing_to_undo_or_redo. reflexivity. Defined.

Lemma nth_snoc {A} (l : list A) (x : A) (j : nat) :
  nth_error (l ++ [x])%list j
  = if Nat.ltb j (length l) then nth_error l j
    else if Nat.eqb j (length l) then Some x else None.
Proof.
  destruct (Nat.ltb_spec j (length l)) as [Hlt | Hge].
  - apply nth_error_app1. exact Hlt.
  - rewrite nth_error_app2 by exact Hge.
    destruct (Nat.eqb_spec j (length l)) as [-> | Hne].
    + rewrite Nat.sub_diag. reflexivity.
    + destruct (j - length l) as [| d] eqn:Ed; [lia |]. simpl. destruct d; reflexivity.
Qed.

Definition bump (h : OperationHistory) (j : nat) (m : HistoryNode) : HistoryNode :=
  match h.(current) with
  | Some p => if Nat.eqb j p then add_child (length h.(nodes)) m else m
  | None => m
  end.

Lemma push_nth (h h' : OperationHistory) (op : Operation) :
  push h op = Some h' ->
  forall j, nth_error h'.(nodes) j
            = option_map (bump h j) (nth_error (h.(nodes) ++ [mk_node op h.(current) []])%list j).
Proof.
  unfold push, bump. destruct h.(current) as [p |] eqn:Ec.
  - destruct (update_nth p _ _) as [l2 |] eqn:Eu; [| discriminate].
    intros H. inversion H; subst. simpl. intros j.
    rewrite (update_nth_nth _ _ _ _ Eu j).
    destruct (Nat.eqb_spec j p) as [-> | Hne]; [reflexivity |].
    destruct (nth_error _ j); reflexivity.
  - intros H. inversion H; subst. simpl. intros j. destruct (nth_error _ j); reflexivity.
Qed.

Lemma push_tree_ok (h h' : OperationHistory) (op : Operation) :
  well_formed h = true -> tree_ok h.(nodes) -> push h op = Some h' -> tree_ok h'.(nodes).
Proof.
  intros Hwf [T1 T2] Hp.
  pose proof (push_nth h h' op Hp) as Hn.
  assert (Hcur : forall p, h.(current) = Some p -> p < length h.(nodes))
    by (intros p E; exact (well_formed_current h p Hwf E)).
  set (len := length h.(nodes)) in *.
  (* the node of [h'] at an index of an old node *)
  assert (Hold : forall j m, nth_error h.(nodes) j = Some m ->
            nth_error h'.(nodes) j = Some (bump h j m)).
  { intros j m E. rewrite Hn, nth_snoc. fold len.
    assert (j < len) by (apply nth_error_Some; rewrite E; discriminate).
    destruct (Nat.ltb_spec j len); [| lia]. rewrite E. reflexivity. }
  assert (Hnew : nth_error h'.(nodes) len = Some (mk_node op h.(current) [])).
  { rewrite Hn, nth_snoc. fold len. rewrite Nat.ltb_irrefl, Nat.eqb_refl. simpl.
    unfold bump. destruct h.(current) as [p |] eqn:E; [| reflexivity].
    specialize (Hcur p eq_refl). destruct (Nat.eqb_spec len p); [lia | reflexivity]. }
  (* every node of [h'] *)
  assert (Hat : forall j m', nth_error h'.(nodes) j = Some m' ->
            (j = len /\ m' = mk_node op h.(current) [])
            \/ (j < len /\ exists m, nth_error h.(nodes) j = Some m /\ m' = bump h j m)).
  { intros j m' E. rewrite Hn, nth_snoc in E. fold len in E.
    destruct (Nat.ltb_spec j len).
    - right. split; [assumption |].
      destruct (nth_error h.(nodes) j) as [m |]; [| discriminate].
      exists m. inversion E. auto.
    - destruct (Nat.eqb_spec j len); [| discriminate]. left. split; [assumption |].
      subst j. simpl in E. inversion E.
      unfold bump. destruct h.(current) as [p |] eqn:Ec; [| reflexivity].
      specialize (Hcur p eq_refl). destruct (Nat.eqb_spec len p); [lia | reflexivity]. }
  assert (Bp : forall j m, (bump h j m).(parent) = m.(parent))
    by (intros j m; unfold bump; destruct h.(current); [destruct (Nat.eqb j _) |]; reflexivity).
  assert (Bc : forall j m x, In x m.(children) -> In x (bump h j m).(children))
    by (intros j m x Hx; unfold bump; destruct h.(current); [destruct (Nat.eqb j _) |];
        simpl; auto; apply in_or_app; left; exact Hx).
  split.
  - intros j m' q E Hq. destruct (Hat j m' E) as [[-> ->] | [Hj [m [Em ->]]]].
    + simpl in Hq. split; [apply Hcur; exact Hq |].
      pose proof (Hcur q Hq) as Hql.
      destruct (nth_error h.(nodes) q) as [n |] eqn:Eq;
        [| apply nth_error_None in Eq; lia].
      exists (bump h q n). split; [apply Hold; exact Eq |].
      unfold bump. rewrite Hq, Nat.eqb_refl. simpl. apply in_or_app. right. left. reflexivity.
    + rewrite Bp in Hq. destruct (T1 j m q Em Hq) as [Hlt [n [En Hin]]].
      split; [exact Hlt |]. exists (bump h q n). split; [apply Hold; exact En | apply Bc; exact Hin].
  - intros i n' j E Hj. destruct (Hat i n' E) as [[-> ->] | [Hi [n [En ->]]]].
    + contradiction.
    + unfold bump in Hj. destruct h.(current) as [p |] eqn:Ec.
      * destruct (Nat.eqb_spec i p) as [-> | Hne].
        -- simpl in Hj. apply in_app_or in Hj as [Hj | [<- | []]].
           ++ destruct (T2 p n j En Hj) as [Hlt [m [Em Hm]]].
              split; [exact Hlt |]. exists (bump h j m).
              split; [apply Hold; exact Em | rewrite Bp; exact Hm].
           ++ split; [exact Hi |]. exists (mk_node op (Some p) []).
              split; [exact Hnew | reflexivity].
        -- destruct (T2 i n j En Hj) as [Hlt [m [Em Hm]]].
           split; [exact Hlt |]. exists (bump h j m).
           split; [apply Hold; exact Em | rewrite Bp; exact Hm].
      * destruct (T2 i n j En Hj) as [Hlt [m [Em Hm]]].
        split; [exact Hlt |]. exists (bump h j m).
        split; [apply Hold; exact Em | rewrite Bp; exact Hm].
Qed.

(** Every history the program builds is a tree stored in creation
    order: each parent index is smaller than the child's own, and the
    parent and children links agree.  [undo] and [redo] only move the
    cursor; only [push] adds nodes and only [clear] removes them. *)
Theorem reachable_is_tree (h : OperationHistory) (Hr : reachable h) : tree_ok h.(nodes).
Proof.
  induction Hr as [| h op h' Hr IH Hp | h h' o _ IH Hu | h h' o _ IH Hu | h _ IH].
  - split; intros [| k] ? ? E; discriminate.
  - exact (push_tree_ok h h' op (reachable_well_formed h Hr) IH Hp).
  - unfold undo in Hu. destruct h.(current) as [cur |].
    + destruct (nth_error h.(nodes) cur); [| discriminate]. inversion Hu; subst. exact IH.
    + inversion Hu; subst. exact IH.
  - unfold redo in Hu. destruct (vec_pop h.(redo_stack)) as [[rest idx] |].
    + destruct (nth_error h.(nodes) idx); [| discriminate]. inversion Hu; subst. exact IH.
    + inversion Hu; subst. exact IH.
  - split; intros [| k] ? ? E; discriminate.
Qed.

Lemma reachable_is_tree_witness :
  tree_ok (mk_history [mk_node (CreateGame "{}") None []] (Some 0) []).(nodes).
Proof.
  apply reachable_is_tree.
  apply (reach_push empty_history (CreateGame "{}")); [exact reach_empty | reflexivity].
Defined.

(* ================================================================= *)
(** * Text streaming and panics of the history *)

Lemma decode_text_deltas (ts : list string) :
  forall d, decode_values (map text_delta_line ts) d = (map Cli.TextDelta ts, d).
Proof.
  induction ts as [| x rest IH]; intros d; [reflexivity |].
  simpl map. rewrite decode_values_cons.
  change (parse_stream_json_line (text_delta_line x) d) with ([Cli.TextDelta x], d).
  cbv beta iota. rewrite IH. reflexivity.
Qed.

Lemma forward_text_deltas (t : bool) (ts : list string) :
  forward_all t (map Cli.TextDelta ts) = (map TextDelta ts, t).
Proof.
  induction ts as [| x rest IH]; [reflexivity |].
  simpl. rewrite IH. reflexivity.
Qed.

Lemma handle_text_deltas (ts : list string) :
  forall s, handle_all (map TextDelta ts) s
            = mk_view s.(current_session_id) (s.(streaming_text) ++ concat_strings ts)
                      s.(thinking_text) s.(active_tools).
Proof.
  induction ts as [| x rest IH]; intros [sid text thinking tools].
  - simpl. rewrite str_append_nil_r. reflexivity.
  - unfold handle_all. cbn [map fold_left].
    fold (handle_all (map TextDelta rest)). rewrite IH. simpl.
    rewrite str_append_assoc. reflexivity.
Qed.

(** The text deltas the CLI streams reach the web UI in order: the
    streamed message grows by their concatenation, nothing else of the
    view changes, and the decoder state is left as it was. *)
Theorem text_lines_reach_ui (ts : list string) (st : decoder) (t : bool) (s : stream_view) :
  snd (decode_values (map text_delta_line ts) st) = st
  /\ handle_all (fst (forward_all t (fst (decode_values (map text_delta_line ts) st)))) s
     = mk_view s.(current_session_id) (s.(streaming_text) ++ concat_strings ts)
               s.(thinking_text) s.(active_tools).
Proof.
  rewrite decode_text_deltas. cbn [fst snd]. split; [reflexivity |].
  rewrite forward_text_deltas. cbn [fst]. apply handle_text_deltas.
Qed.

(** On every history the program builds, [push], [undo] and [redo] never
    panic: the cursor, the redo stack and the parent links only hold
    indices of existing nodes, so every [self.nodes[i]] is in bounds. *)
Theorem history_ops_never_panic (h : OperationHistory) (Hr : reachable h) :
  (forall op, exists h', push h op = Some h')
  /\ (exists h' o, undo h = Some (h', o))
  /\ (exists h' o, redo h = Some (h', o)).
Proof.
  apply reachable_well_formed, well_formed_iff in Hr as [Hc [Hrs _]].
  split; [| split].
  - intros op. unfold push. destruct h.(current) as [p |] eqn:E; [| eexists; reflexivity].
    assert (Hp : p < length (h.(nodes) ++ [mk_node op (Some p) []])%list)
      by (rewrite length_app; simpl; specialize (Hc p eq_refl); lia).
    destruct (update_nth_length (add_child (length h.(nodes))) _ p Hp) as [l' [Eu _]].
    rewrite Eu. eexists. reflexivity.
  - unfold undo. destruct h.(current) as [cur |] eqn:E; [| do 2 eexists; reflexivity].
    specialize (Hc cur eq_refl).
    destruct (nth_error h.(nodes) cur) eqn:En; [do 2 eexists; reflexivity |].
    apply nth_error_None in En. lia.
  - unfold redo. destruct (vec_pop h.(redo_stack)) as [[rest idx] |] eqn:E;
      [| do 2 eexists; reflexivity].
    apply vec_pop_app in E.
    assert (Hlt : idx < length h.(nodes))
      by (apply Hrs; rewrite E; apply in_or_app; right; left; reflexivity).
    destruct (nth_error h.(nodes) idx) eqn:En; [do 2 eexists; reflexivity |].
    apply nth_error_None in En. lia.
Qed.

Lemma history_ops_never_panic_witness :
  (forall op, exists h', push (mk_history [mk_node (CreateGame "{}") None []] (Some 0) []) op
                         = Some h')
  /\ (exists h' o, undo (mk_history [mk_node (CreateGame "{}") None []] (Some 0) [])
                   = Some (h', o))
  /\ (exists h' o, redo (mk_history [mk_node (CreateGame "{}") None []] (Some 0) [])
                   = Some (h', o)).
Proof.
  apply history_ops_never_panic.
  apply (reach_push empty_history (CreateGame "{}")); [exact reach_empty | reflexivity].
Defined.
